(** * Flickr Image Downloader: the pagination loop and the image fetch

    A shallow embedding of [FlickrImageDownloader.execute] and
    [FlickrImageDownloader.__open_image_from_url]
    (src/nodes/flickr_image_downloader.py), and the properties of the
    search paginator and of the image fetcher proved over it.

    The Python code is dynamically typed: whatever [response.json()] returns
    is walked with [in], [[]], [not], [==] and [for].  The embedding keeps
    that: JSON documents are values of one type [jvalue], and every
    operation the code applies to them is defined on all of [jvalue], raising
    [TypeError] or [KeyError] where Python does. *)

From Stdlib Require Import String Ascii List ZArith Lia Bool Arith DecimalString.
From Stdlib.Strings Require Import Byte.
From Stdlib Require Import PrimFloat.
From Stdlib Require Import DecimalPos DecimalZ.
Import ListNotations.

Set Warnings "-register-all".
Open Scope string_scope.
Open Scope nat_scope.

(** ** Python values and exceptions *)

(** What [json.loads] can produce.  A dict is kept as its items in insertion
    order (the order [for] iterates in); subscripting takes the first item
    with the key.  A str is a [string], character by character. *)
Inductive jvalue : Type :=
| JNull
| JBool (b : bool)
| JInt (n : Z)
| JFloat (x : float)
| JStr (s : string)
| JList (items : list jvalue)
| JDict (members : list (string * jvalue)).

(** The exceptions the two methods can end with.  [ImageError] stands for
    whatever Pillow raises on bytes it cannot decode or encode. *)
Inductive exn : Type :=
| RuntimeError (msg : string)
| ValueError (msg : string)
| TypeError
| KeyError (key : string)
| JSONDecodeError
| ImageError.

(** A computation that returns or raises. *)
Inductive py (A : Type) : Type :=
| Ok (a : A)
| Raise (e : exn).
Arguments Ok {A} a.
Arguments Raise {A} e.

Definition bind {A B : Type} (m : py A) (k : A -> py B) : py B :=
  match m with
  | Ok a => k a
  | Raise e => Raise e
  end.

Notation "x <- m ;; k" := (bind m (fun x => k))
  (at level 61, m at next level, right associativity).

(** Python's [a or b] on conditions that may raise: [b] is evaluated only
    when [a] is false. *)
Definition por (a b : py bool) : py bool :=
  x <- a ;; if x then Ok true else b.

Notation "a 'or' b" := (por a b) (at level 62, right associativity).

Fixpoint dict_get (key : string) (members : list (string * jvalue)) : option jvalue :=
  match members with
  | [] => None
  | (k, v) :: rest => if String.eqb k key then Some v else dict_get key rest
  end.

(** [needle in haystack] on two strings. *)
Fixpoint occurs (needle haystack : string) : bool :=
  String.prefix needle haystack
  || match haystack with
     | EmptyString => false
     | String _ rest => occurs needle rest
     end.

Definition is_str (key : string) (v : jvalue) : bool :=
  match v with
  | JStr s => String.eqb s key
  | _ => false
  end.

(** [key in v] for a string [key]: key membership on a dict, element
    membership on a list, substring test on a str, [TypeError] otherwise. *)
Definition contains (key : string) (v : jvalue) : py bool :=
  match v with
  | JDict members =>
      Ok (match dict_get key members with Some _ => true | None => false end)
  | JList items => Ok (existsb (is_str key) items)
  | JStr s => Ok (occurs key s)
  | JNull | JBool _ | JInt _ | JFloat _ => Raise TypeError
  end.

Definition not_in (key : string) (v : jvalue) : py bool :=
  b <- contains key v ;; Ok (negb b).

(** [v[key]] for a string [key]. *)
Definition getitem (v : jvalue) (key : string) : py jvalue :=
  match v with
  | JDict members =>
      match dict_get key members with
      | Some x => Ok x
      | None => Raise (KeyError key)
      end
  | _ => Raise TypeError
  end.

(** [bool(v)], the test behind [not v] and [if v]. *)
Definition truthy (v : jvalue) : bool :=
  match v with
  | JNull => false
  | JBool b => b
  | JInt n => negb (n =? 0)%Z
  | JFloat x => negb (PrimFloat.eqb x 0%float)
  | JStr s => negb (String.eqb s "")
  | JList items => match items with [] => false | _ :: _ => true end
  | JDict members => match members with [] => false | _ :: _ => true end
  end.

(** [v == 0]. *)
Definition eq_zero (v : jvalue) : bool :=
  match v with
  | JBool b => negb b
  | JInt n => (n =? 0)%Z
  | JFloat x => PrimFloat.eqb x 0%float
  | JNull | JStr _ | JList _ | JDict _ => false
  end.

(** The items [for x in v] goes through. *)
Definition iter (v : jvalue) : py (list jvalue) :=
  match v with
  | JList items => Ok items
  | JDict members => Ok (map (fun kv => JStr (fst kv)) members)
  | JStr s => Ok (map (fun c => JStr (String c EmptyString)) (list_ascii_of_string s))
  | JNull | JBool _ | JInt _ | JFloat _ => Raise TypeError
  end.

Definition decimal (n : Z) : string := NilZero.string_of_int (Z.to_int n).

(** [x in xs] on a list of strings. *)
Definition mem (x : string) (xs : list string) : bool := existsb (String.eqb x) xs.

(** ** The node *)

Record node : Type := {
  api_key : string;
  search_term : string;
  num_images : nat
}.

(** The [params] dict of a search request. *)
Record params : Type := {
  rq_method : string;
  rq_api_key : string;
  rq_text : string;
  per_page : nat;
  rq_page : nat;
  rq_format : string;
  rq_nojsoncallback : nat
}.

(** What the code reads of a [requests.Response]; [json] is [None] when the
    body is not JSON and [response.json()] raises. *)
Record response : Type := {
  status_code : Z;
  text : string;
  content : list byte;
  json : option jvalue
}.

Definition base_url : string := "https://www.flickr.com/services/rest/".
Definition max_per_page : nat := 500.

(** Where the control of the pagination loop can be: at the [while] test
    (line 80), inside the [for] with the photos not yet looked at (line
    114), past the loop (line 140), or gone with an exception. *)
Inductive state : Type :=
| AtWhile (urls : list string) (page : nat)
| InFor (urls : list string) (page : nat) (rest : list jvalue)
| Exited (urls : list string)
| Raised (e : exn).

(** ** Sample sources

    Responses and sources in the shape of the Flickr API, for the examples
    that close the file. *)
Module Sample.

Definition photo (farm : Z) (server id secret : string) : list (string * jvalue) :=
  [("id", JStr id); ("owner", JStr "8@N00"); ("secret", JStr secret);
   ("server", JStr server); ("farm", JInt farm); ("title", JStr "")].

Definition A : list (string * jvalue) := photo 66 "65535" "1" "a".
(** [server] is missing. *)
Definition B : list (string * jvalue) :=
  [("id", JStr "2"); ("owner", JStr "8@N00"); ("secret", JStr "b"); ("farm", JInt 66)].
Definition C : list (string * jvalue) := photo 66 "65535" "3" "c".
Definition D : list (string * jvalue) := photo 66 "65535" "4" "d".
Definition E : list (string * jvalue) := photo 66 "65535" "5" "e".
(** [farm] is 0. *)
Definition Z0 : list (string * jvalue) := photo 0 "65535" "6" "f".

Definition urlA : string := "https://farm66.staticflickr.com/65535/1_a.jpg".
Definition urlC : string := "https://farm66.staticflickr.com/65535/3_c.jpg".
Definition urlD : string := "https://farm66.staticflickr.com/65535/4_d.jpg".
Definition urlE : string := "https://farm66.staticflickr.com/65535/5_e.jpg".

Definition answer (code : Z) (data : option jvalue) : response :=
  {| status_code := code; text := ""; content := []; json := data |}.

Definition body (photo_list : jvalue) : jvalue :=
  JDict [("photos", JDict [("page", JInt 1); ("photo", photo_list)]); ("stat", JStr "ok")].

Definition page_of (records : list (list (string * jvalue))) : response :=
  answer 200 (Some (body (JList (map JDict records)))).

Definition wants (n : nat) : node :=
  {| api_key := "key"; search_term := "cats"; num_images := n |}.

Definition no_repr (v : jvalue) : string := "".

(** A source that serves the pages of [feed] to the search and nothing
    else. *)
Definition source (feed : nat -> list (list (string * jvalue)))
           (url : string) (p : option params) : response :=
  match p with
  | Some p => page_of (feed (rq_page p))
  | None => answer 404 None
  end.

(** Three pages of distinct valid photos. *)
Definition fresh (page : nat) : list (list (string * jvalue)) :=
  match page with
  | 1 => [A; C]
  | 2 => [D]
  | _ => [E]
  end.

(** Photos A, A, B, C on page 1, then D and A again, then nothing. *)
Definition mixed (page : nat) : list (list (string * jvalue)) :=
  match page with
  | 1 => [A; A; B; C]
  | 2 => [D; A]
  | _ => []
  end.

(** Two photos on page 1, then nothing. *)
Definition drained (page : nat) : list (list (string * jvalue)) :=
  match page with
  | 1 => [A; C]
  | _ => []
  end.

(** Every page holds the same one photo, whose [farm] is 0. *)
Definition only_invalid (page : nat) : list (list (string * jvalue)) := [Z0].

(** A 200 response whose body is [{"photos": null}]. *)
Definition photos_null (url : string) (p : option params) : response :=
  answer 200 (Some (JDict [("photos", JNull)])).

(** The search serves [mixed]; the image of A downloads, every other
    download is a 404.  Pillow is the identity on bytes. *)
Definition half_down (url : string) (p : option params) : response :=
  match p with
  | Some p => page_of (mixed (rq_page p))
  | None => if String.eqb url urlA then answer 200 None else answer 404 None
  end.

Definition Image_open (b : list byte) : option (list byte) := Some b.
Definition Image_save (img : list byte) (format : string) : option (list byte) := Some img.

(** Photo A as another response may bring it: other fields around the
    same farm, server, id and secret. *)
Definition A2 : list (string * jvalue) :=
  [("farm", JInt 66); ("title", JStr "again"); ("server", JStr "65535");
   ("secret", JStr "a"); ("id", JStr "1")].

(** The search serves [mixed]; every image downloads, its bytes the bytes of
    its URL. *)
Definition all_up (url : string) (p : option params) : response :=
  match p with
  | Some p => page_of (mixed (rq_page p))
  | None => {| status_code := 200; text := ""; content := list_byte_of_string url;
               json := None |}
  end.

(** Every request is answered with a 500. *)
Definition server_error (url : string) (p : option params) : response :=
  answer 500 None.

(** A source that honours [page] and [per_page]: page [p] of size [n] is
    the slice of [catalogue] from position [(p - 1) * n] on, [n] long.  B,
    the second photo of the catalogue, has no [server]. *)
Definition catalogue : list (list (string * jvalue)) := [A; B; C; D; E].

Definition honest (url : string) (p : option params) : response :=
  match p with
  | Some p => page_of (firstn (per_page p) (skipn ((rq_page p - 1) * per_page p) catalogue))
  | None => answer 404 None
  end.

(** One page with a photo whose [farm] is 0, then nothing. *)
Definition stall_once (page : nat) : list (list (string * jvalue)) :=
  match page with
  | 1 => [Z0]
  | _ => []
  end.

End Sample.

Section Execute.

(** [repr] is Python's [repr] of a float, list or dict, which an f-string
    falls back to; its text is not modelled. *)
Variable repr : jvalue -> string.

(** The network: [requests.get(url, params=...)].  Every search request of
    a run carries a page number of its own, and every image URL is fetched
    once, so a function of the request stands for any sequence of
    responses.  A request that gets no response at all (a connection error
    raised by [requests]) is not modelled. *)
Variable requests_get : string -> option params -> response.

Variable self : node.

(** [str(v)], what an f-string field prints. *)
Definition str (v : jvalue) : string :=
  match v with
  | JNull => "None"
  | JBool true => "True"
  | JBool false => "False"
  | JInt n => decimal n
  | JStr s => s
  | JFloat _ | JList _ | JDict _ => repr v
  end.

(** Lines 116-125: the condition under which a photo is skipped. *)
Definition invalid (photo : jvalue) : py bool :=
  not_in "farm" photo
  or (farm <- getitem photo "farm" ;; Ok (eq_zero farm))
  or not_in "server" photo
  or (server <- getitem photo "server" ;; Ok (negb (truthy server)))
  or not_in "id" photo
  or (id <- getitem photo "id" ;; Ok (negb (truthy id)))
  or not_in "secret" photo
  or (secret <- getitem photo "secret" ;; Ok (negb (truthy secret))).

(** Line 129. *)
Definition photo_url (photo : jvalue) : py string :=
  farm <- getitem photo "farm" ;;
  server <- getitem photo "server" ;;
  id <- getitem photo "id" ;;
  secret <- getitem photo "secret" ;;
  Ok ("https://farm" ++ str farm ++ ".staticflickr.com/" ++ str server
      ++ "/" ++ str id ++ "_" ++ str secret ++ ".jpg").

(** Lines 81-92. *)
Definition search_params (urls : list string) (page : nat) : params :=
  let num_remaining_images := num_images self - length urls in
  {| rq_method := "flickr.photos.search";
     rq_api_key := api_key self;
     rq_text := search_term self;
     per_page := Nat.min num_remaining_images max_per_page;
     rq_page := page;
     rq_format := "json";
     rq_nojsoncallback := 1 |}.

(** Lines 96-108: from the response to [photo_list]. *)
Definition photo_list_of (r : response) : py jvalue :=
  if negb (status_code r =? 200)%Z then
    Raise (RuntimeError ("Failed to fetch data from Flickr API: " ++ text r))
  else
    match json r with
    | None => Raise JSONDecodeError
    | Some data =>
        malformed <- (not_in "photos" data
                      or (photos <- getitem data "photos" ;; not_in "photo" photos)) ;;
        if malformed then Raise (ValueError "Unexpected API response format.")
        else photos <- getitem data "photos" ;; getitem photos "photo"
    end.

(** Lines 110-114: what the loop does with [photo_list]. *)
Definition enter_for (urls : list string) (page : nat) (photo_list : jvalue) : state :=
  if negb (truthy photo_list) then Exited urls
  else match iter photo_list with
       | Ok items => InFor urls page items
       | Raise e => Raised e
       end.

(** Lines 114-138: one round of the [for], or leaving it. *)
Definition for_step (urls : list string) (page : nat) (rest : list jvalue) : state :=
  match rest with
  | [] => AtWhile urls (page + 1)
  | photo :: rest' =>
      match invalid photo with
      | Raise e => Raised e
      | Ok true => InFor urls page rest'
      | Ok false =>
          match photo_url photo with
          | Raise e => Raised e
          | Ok url =>
              let urls' := if negb (mem url urls) then (urls ++ [url])%list else urls in
              if num_images self <=? length urls' then AtWhile urls' (page + 1)
              else InFor urls' page rest'
          end
      end
  end.

(** One step of the loop: the search request it sends, if it sends one,
    and where control goes. *)
Definition step (st : state) : option params * state :=
  match st with
  | AtWhile urls page =>
      if length urls <? num_images self then
        let p := search_params urls page in
        let r := requests_get base_url (Some p) in
        (Some p,
         match photo_list_of r with
         | Raise e => Raised e
         | Ok photo_list => enter_for urls page photo_list
         end)
      else (None, Exited urls)
  | InFor urls page rest => (None, for_step urls page rest)
  | Exited _ | Raised _ => (None, st)
  end.

Definition sent (st : state) : option params := fst (step st).
Definition next (st : state) : state := snd (step st).

(** Lines 77-78. *)
Definition start : state := AtWhile [] 1.

(** The state after [k] steps from [st]. *)
Fixpoint run (k : nat) (st : state) : state :=
  match k with
  | 0 => st
  | S k' => run k' (next st)
  end.

(** The URL list a state holds. *)
Definition urls_of (st : state) : option (list string) :=
  match st with
  | AtWhile urls _ | InFor urls _ _ | Exited urls => Some urls
  | Raised _ => None
  end.

Definition finished (st : state) : bool :=
  match st with
  | Exited _ | Raised _ => true
  | AtWhile _ _ | InFor _ _ _ => false
  end.

(** ** The image fetcher *)

(** Pillow: the image type, [Image.open] on the bytes of a buffer and
    [img.save(buffer, format=...)]; [None] when Pillow raises. *)
Variable image : Type.
Variable Image_open : list byte -> option image.
Variable Image_save : image -> string -> option (list byte).

Definition pillow {A : Type} (o : option A) : py A :=
  match o with
  | Some a => Ok a
  | None => Raise ImageError
  end.

(** Lines 149-158. *)
Definition open_image_from_url (url : string) : py image :=
  let r := requests_get url None in
  if (status_code r =? 200)%Z then
    img <- pillow (Image_open (content r)) ;;
    buffer <- pillow (Image_save img "PNG") ;;
    pillow (Image_open buffer)
  else Raise (ValueError ("Failed to fetch image from URL: " ++ url)).

(** Line 144: the list comprehension, left to right; the first exception
    leaves it. *)
Fixpoint open_images (urls : list string) : py (list image) :=
  match urls with
  | [] => Ok []
  | url :: rest =>
      img <- open_image_from_url url ;;
      imgs <- open_images rest ;;
      Ok (img :: imgs)
  end.

(** [execute] when the pagination loop is over after [k] steps: the rows
    of the column "Image" of the output table, or the exception the run
    ends with.  [None] when the loop still runs after [k] steps. *)
Definition execute (k : nat) : option (py (list image)) :=
  match run k start with
  | Exited urls => Some (open_images urls)
  | Raised e => Some (Raise e)
  | AtWhile _ _ | InFor _ _ _ => None
  end.

(** ** The predicates of the properties *)

(** The invariant of the loop: the list never holds a URL twice and never
    more than [num_images] of them, and the [for] is only ever inside with
    fewer. *)
Definition inv (st : state) : Prop :=
  match st with
  | AtWhile urls _ | Exited urls => NoDup urls /\ length urls <= num_images self
  | InFor urls _ _ => NoDup urls /\ length urls < num_images self
  | Raised _ => True
  end.

(** The validity rule in the words of the data model: the four fields are
    present, [farm] is not equal to 0, and [server], [id] and [secret] are
    neither empty nor zero. *)
Definition present_nonempty (key : string) (rec : list (string * jvalue)) : Prop :=
  exists v, dict_get key rec = Some v /\ truthy v = true.

Definition valid_record (rec : list (string * jvalue)) : Prop :=
  (exists farm, dict_get "farm" rec = Some farm /\ eq_zero farm = false)
  /\ present_nonempty "server" rec
  /\ present_nonempty "id" rec
  /\ present_nonempty "secret" rec.

(** [r] is a 200 response whose body is a JSON object with an object
    [photos] that has a member [photo], and [v] is that member. *)
Definition photo_list_is (r : response) (v : jvalue) : Prop :=
  status_code r = 200%Z
  /\ exists data photos,
       json r = Some (JDict data)
       /\ dict_get "photos" data = Some (JDict photos)
       /\ dict_get "photo" photos = Some v.

(** The exception of line 106. *)
Definition unexpected_format : exn := ValueError "Unexpected API response format.".

(** ** The run as a whole: what was requested and what was received *)

(** The search requests of the first [k] steps from [st], in the order they
    are sent. *)
Fixpoint requests (k : nat) (st : state) : list params :=
  match k with
  | 0 => []
  | S k' =>
      match sent st with
      | Some p => p :: requests k' (next st)
      | None => requests k' (next st)
      end
  end.

(** The page number the next request from [st] will carry. *)
Definition next_page (st : state) : nat :=
  match st with
  | AtWhile _ page => page
  | InFor _ page _ => page + 1
  | Exited _ | Raised _ => 0
  end.

(** The items of [photo_list] the [for] is entered with by the step from
    [st]. *)
Definition entered (st : state) : list jvalue :=
  match st, next st with
  | AtWhile _ _, InFor _ _ items => items
  | _, _ => []
  end.

(** All the items the [for] was entered with in the first [k] steps of the
    run, page after page. *)
Fixpoint received (k : nat) : list jvalue :=
  match k with
  | 0 => []
  | S k' => (received k' ++ entered (run k' start))%list
  end.

(** The URL of an item that passes the validation. *)
Definition item_url (photo : jvalue) : option string :=
  match invalid photo with
  | Ok false =>
      match photo_url photo with
      | Ok url => Some url
      | Raise _ => None
      end
  | Ok true | Raise _ => None
  end.

Fixpoint valid_urls (items : list jvalue) : list string :=
  match items with
  | [] => []
  | photo :: rest =>
      match item_url photo with
      | Some url => url :: valid_urls rest
      | None => valid_urls rest
      end
  end.

(** The distinct strings of a list, each at the place of its first
    occurrence. *)
Definition add_new (urls : list string) (url : string) : list string :=
  if mem url urls then urls else (urls ++ [url])%list.

Definition distinct (l : list string) : list string := fold_left add_new l [].

(** [c in s] for a character. *)
Fixpoint has_char (c : ascii) (s : string) : bool :=
  match s with
  | EmptyString => false
  | String a rest => Ascii.eqb a c || has_char c rest
  end.

(** A record as Flickr sends it: [farm] an integer, [server], [id] and
    [secret] strings, no slash in [server], no underscore in [id]. *)
Definition flickr_fields (rec : list (string * jvalue))
           (farm : Z) (server id secret : string) : Prop :=
  dict_get "farm" rec = Some (JInt farm)
  /\ dict_get "server" rec = Some (JStr server)
  /\ dict_get "id" rec = Some (JStr id)
  /\ dict_get "secret" rec = Some (JStr secret)
  /\ has_char "/" server = false
  /\ has_char "_" id = false.


(** ** [configure] *)

(** What [configure] ends with: the column of the output table, or
    [knext.InvalidParametersError]. *)
Inductive configured : Type :=
| Column (name : string)
| InvalidParametersError (msg : string).

(** Lines 61-66; [credential_names] is [ctx.get_credential_names()]. *)
Definition configure (credential_names : list string) (credential_param : string)
  : configured :=
  if negb (match credential_names with [] => false | _ :: _ => true end) then
    InvalidParametersError "No credentials provided."
  else if negb (negb (String.eqb credential_param "")) then
    InvalidParametersError "Credentials not selected."
  else Column "Image".

(** ** Running the loop *)

Lemma run_add (a b : nat) (st : state) : run (a + b) st = run b (run a st).
Proof.
  revert st; induction a as [|a IH]; intros st; simpl; [reflexivity|apply IH].
Qed.

Lemma run_S (k : nat) (st : state) : run (S k) st = next (run k st).
Proof.
  replace (S k) with (k + 1) by lia. rewrite run_add. reflexivity.
Qed.

Lemma ltb_cases (a b : nat) :
  (a < b /\ (a <? b) = true) \/ (b <= a /\ (a <? b) = false).
Proof.
  destruct (Nat.ltb_spec a b); [left|right]; split; (assumption || reflexivity).
Qed.

Lemma run_next (k : nat) (st : state) : run (S k) st = run k (next st).
Proof.
  reflexivity.
Qed.

Lemma next_for (urls : list string) (page : nat) (rest : list jvalue) :
  next (InFor urls page rest) = for_step urls page rest.
Proof.
  reflexivity.
Qed.

Lemma next_finished (st : state) : finished st = true -> next st = st.
Proof.
  destruct st; simpl; intros H; try discriminate; reflexivity.
Qed.

Lemma run_finished (k : nat) (st : state) : finished st = true -> run k st = st.
Proof.
  intros H; induction k as [|k IH]; simpl; [reflexivity|].
  rewrite (next_finished st H). exact IH.
Qed.

Lemma mem_In (x : string) (xs : list string) : mem x xs = true <-> In x xs.
Proof.
  unfold mem. rewrite existsb_exists. split.
  - intros [y [Hy E]]. apply String.eqb_eq in E. subst y. exact Hy.
  - intros H. exists x. split; [exact H|apply String.eqb_refl].
Qed.

Lemma mem_false (x : string) (xs : list string) : mem x xs = false <-> ~ In x xs.
Proof.
  rewrite <- mem_In. destruct (mem x xs); split; intros H; congruence.
Qed.

(** What one round of the [for] can lead to: the photo is skipped, or
    an exception leaves, or its URL is looked up in [urls] and appended
    if new, after which the [for] goes on or is left. *)
Lemma for_step_cases (urls : list string) (page : nat) (photo : jvalue) (rest : list jvalue) :
  (invalid photo = Ok true /\ for_step urls page (photo :: rest) = InFor urls page rest)
  \/ (exists e, for_step urls page (photo :: rest) = Raised e)
  \/ (exists url urls',
        invalid photo = Ok false /\ photo_url photo = Ok url
        /\ urls' = (if negb (mem url urls) then (urls ++ [url])%list else urls)
        /\ ((num_images self <= length urls'
             /\ for_step urls page (photo :: rest) = AtWhile urls' (page + 1))
            \/ (length urls' < num_images self
                /\ for_step urls page (photo :: rest) = InFor urls' page rest))).
Proof.
  unfold for_step.
  destruct (invalid photo) as [[|]|e].
  - left. split; reflexivity.
  - destruct (photo_url photo) as [url|e].
    + right; right. exists url. eexists. repeat split.
      destruct (Nat.leb_spec (num_images self)
                  (length (if negb (mem url urls) then (urls ++ [url])%list else urls))).
      * left. split; [assumption|reflexivity].
      * right. split; [assumption|reflexivity].
    + right; left. exists e. reflexivity.
  - right; left. exists e. reflexivity.
Qed.

Lemma NoDup_snoc (x : string) (xs : list string) :
  NoDup xs -> ~ In x xs -> NoDup (xs ++ [x]).
Proof.
  intros Hn Hx. induction Hn as [|y ys Hy Hn IH]; simpl.
  - constructor; [intros []|constructor].
  - constructor.
    + rewrite in_app_iff. simpl. intros [H|[H|[]]]; [tauto|].
      subst y. apply Hx. left. reflexivity.
    + apply IH. intros H. apply Hx. right. exact H.
Qed.

Lemma inv_start : inv start.
Proof.
  simpl. split; [constructor|lia].
Qed.

Lemma inv_next (st : state) : inv st -> inv (next st).
Proof.
  destruct st as [urls page|urls page rest|urls|e]; unfold next; simpl; intros H.
  - destruct (Nat.ltb_spec (length urls) (num_images self)) as [Hlt|Hge]; simpl.
    + destruct (photo_list_of _) as [photo_list|e]; simpl; [|exact I].
      unfold enter_for. destruct (negb (truthy photo_list)); simpl.
      * split; [tauto|lia].
      * destruct (iter photo_list); simpl; [split; [tauto|lia]|exact I].
    + exact H.
  - destruct rest as [|photo rest]; simpl.
    + split; [tauto|lia].
    + destruct (for_step_cases urls page photo rest)
        as [[_ E]|[[e E]|[url [urls' [_ [_ [Hu [[Hl E]|[Hl E]]]]]]]]];
        unfold for_step in E; rewrite E; simpl; try exact I; try exact H.
      * subst urls'. destruct (mem url urls) eqn:Hm; simpl in *.
        -- split; [tauto|lia].
        -- split; [apply NoDup_snoc; [tauto|apply mem_false; exact Hm]|].
           rewrite length_app. simpl. lia.
      * subst urls'. destruct (mem url urls) eqn:Hm; simpl in *.
        -- split; [tauto|lia].
        -- split; [apply NoDup_snoc; [tauto|apply mem_false; exact Hm]|exact Hl].
  - exact H.
  - exact I.
Qed.

Lemma inv_run (k : nat) (st : state) : inv st -> inv (run k st).
Proof.
  revert st; induction k as [|k IH]; intros st H; simpl; [exact H|].
  apply IH, inv_next, H.
Qed.

Lemma inv_urls (st : state) (urls : list string) :
  inv st -> urls_of st = Some urls -> NoDup urls /\ length urls <= num_images self.
Proof.
  destruct st; simpl; intros H E; inversion E; subst; split; try tauto; lia.
Qed.

(** A step never takes a URL out of the list or moves one: it leaves with
    an exception or extends the list at its end. *)
Lemma next_extends (st : state) (urls : list string) :
  urls_of st = Some urls ->
  (exists e, next st = Raised e)
  \/ (exists more, urls_of (next st) = Some (urls ++ more)%list).
Proof.
  destruct st as [us page|us page rest|us|e]; unfold next; simpl; intros E;
    inversion E; subst us; clear E.
  - destruct (length urls <? num_images self); simpl.
    + destruct (photo_list_of _) as [photo_list|e]; [|left; eexists; reflexivity].
      unfold enter_for. destruct (negb (truthy photo_list)).
      * right. exists []. rewrite app_nil_r. reflexivity.
      * destruct (iter photo_list); [|left; eexists; reflexivity].
        right. exists []. rewrite app_nil_r. reflexivity.
    + right. exists []. rewrite app_nil_r. reflexivity.
  - destruct rest as [|photo rest].
    + right. exists []. rewrite app_nil_r. reflexivity.
    + destruct (for_step_cases urls page photo rest)
        as [[_ E]|[[e E]|[url [urls' [_ [_ [Hu [[_ E]|[_ E]]]]]]]]]; rewrite E.
      * right. exists []. rewrite app_nil_r. reflexivity.
      * left. exists e. reflexivity.
      * right. subst urls'. destruct (negb (mem url urls)).
        -- exists [url]. reflexivity.
        -- exists []. rewrite app_nil_r. reflexivity.
      * right. subst urls'. destruct (negb (mem url urls)).
        -- exists [url]. reflexivity.
        -- exists []. rewrite app_nil_r. reflexivity.
  - right. exists []. rewrite app_nil_r. reflexivity.
Qed.

Lemma run_extends (m : nat) (st : state) (urls urls' : list string) :
  urls_of st = Some urls -> urls_of (run m st) = Some urls' ->
  exists more, urls' = (urls ++ more)%list.
Proof.
  revert st urls; induction m as [|m IH]; intros st urls E E'; simpl in E'.
  - rewrite E in E'. inversion E'. exists []. rewrite app_nil_r. reflexivity.
  - destruct (next_extends st urls E) as [[e H]|[more H]].
    + rewrite H, (run_finished m (Raised e) eq_refl) in E'. discriminate.
    + destruct (IH _ _ H E') as [more' ->]. exists (more ++ more')%list.
      rewrite app_assoc. reflexivity.
Qed.

Lemma run_split (j k : nat) (st : state) : j <= k -> run k st = run (k - j) (run j st).
Proof.
  intros H. rewrite <- run_add. f_equal. lia.
Qed.

(** The steps that send a search request. *)
Lemma sent_Some (st : state) (p : params) :
  sent st = Some p ->
  exists urls page,
    st = AtWhile urls page /\ length urls < num_images self /\ p = search_params urls page.
Proof.
  destruct st as [urls page|urls page rest|urls|e]; unfold sent; simpl; try discriminate.
  destruct (Nat.ltb_spec (length urls) (num_images self)); simpl; [|discriminate].
  intros E. inversion E. exists urls, page. repeat split. assumption.
Qed.

Lemma next_full (st : state) (urls : list string) :
  inv st -> urls_of st = Some urls -> num_images self <= length urls ->
  next st = Exited urls.
Proof.
  destruct st as [us page|us page rest|us|e]; unfold next; simpl; intros H E Hl;
    inversion E; subst us.
  - destruct (Nat.ltb_spec (length urls) (num_images self)); [lia|reflexivity].
  - lia.
  - reflexivity.
Qed.

(** The URL a photo that passes the validation gets is in the list after
    the round of the [for] that looks at it. *)
Lemma for_step_keeps (urls : list string) (page : nat) (photo : jvalue)
      (rest : list jvalue) (url : string) :
  invalid photo = Ok false -> photo_url photo = Ok url ->
  exists urls', urls_of (for_step urls page (photo :: rest)) = Some urls' /\ In url urls'.
Proof.
  intros Hv Hu. unfold for_step. rewrite Hv, Hu.
  exists (if negb (mem url urls) then (urls ++ [url])%list else urls). split.
  - destruct (num_images self <=? _); reflexivity.
  - destruct (mem url urls) eqn:Hm; simpl.
    + apply mem_In. exact Hm.
    + apply in_or_app. right. left. reflexivity.
Qed.

Lemma photo_url_fields (rec rec' : list (string * jvalue)) :
  dict_get "farm" rec = dict_get "farm" rec' ->
  dict_get "server" rec = dict_get "server" rec' ->
  dict_get "id" rec = dict_get "id" rec' ->
  dict_get "secret" rec = dict_get "secret" rec' ->
  photo_url (JDict rec) = photo_url (JDict rec').
Proof.
  intros Hf Hs Hi Hx. unfold photo_url, getitem. rewrite Hf, Hs, Hi, Hx. reflexivity.
Qed.

(** ** Validation of a photo record and the response of the search endpoint *)

Lemma invalid_dict_cases (rec : list (string * jvalue)) :
  (valid_record rec /\ invalid (JDict rec) = Ok false)
  \/ (~ valid_record rec /\ invalid (JDict rec) = Ok true).
Proof.
  unfold valid_record, present_nonempty, invalid, por, not_in, contains, getitem, bind.
  destruct (dict_get "farm" rec) as [farm|]; simpl;
    [destruct (eq_zero farm) eqn:Hf; simpl|];
    try (right; split; [|reflexivity];
         intros [[v [E H]] _]; (discriminate || (inversion E; subst; congruence))).
  destruct (dict_get "server" rec) as [server|]; simpl;
    [destruct (truthy server) eqn:Hs; simpl|];
    try (right; split; [|reflexivity];
         intros [_ [[v [E H]] _]]; (discriminate || (inversion E; subst; congruence))).
  destruct (dict_get "id" rec) as [id|]; simpl;
    [destruct (truthy id) eqn:Hi; simpl|];
    try (right; split; [|reflexivity];
         intros [_ [_ [[v [E H]] _]]]; (discriminate || (inversion E; subst; congruence))).
  destruct (dict_get "secret" rec) as [secret|]; simpl;
    [destruct (truthy secret) eqn:Hx; simpl|];
    try (right; split; [|reflexivity];
         intros [_ [_ [_ [v [E H]]]]]; (discriminate || (inversion E; subst; congruence))).
  left. split; [|reflexivity]. repeat split; eexists; split; reflexivity || eassumption.
Qed.

Lemma valid_record_url (rec : list (string * jvalue)) :
  valid_record rec -> exists url, photo_url (JDict rec) = Ok url.
Proof.
  intros [[farm [Hf _]] [[server [Hs _]] [[id [Hi _]] [secret [Hx _]]]]].
  unfold photo_url, getitem. rewrite Hf, Hs, Hi, Hx. simpl. eexists. reflexivity.
Qed.

Lemma photo_list_is_of (r : response) (v : jvalue) :
  photo_list_is r v -> photo_list_of r = Ok v.
Proof.
  intros [Hs [data [photos [Hj [Hp Hv]]]]].
  unfold photo_list_of. rewrite Hs, Hj. simpl.
  unfold por, not_in, contains, getitem, bind. rewrite Hp. simpl. rewrite Hv. reflexivity.
Qed.

(** ** The search paginator: what holds in every run *)

(** C9: at every point of the pagination loop (at the [while] test, in
    every round of the [for], and past the loop) the list of collected
    URLs holds at most [num_images] entries. *)
Theorem length_invariant (k : nat) (urls : list string) :
  urls_of (run k start) = Some urls -> length urls <= num_images self.
Proof.
  intros E. apply (inv_urls (run k start)); [apply inv_run, inv_start|exact E].
Qed.

(** C3: every search request the loop sends asks for
    [min(num_images - len(urls), 500)] items, [urls] being the list at the
    time of the request; so it asks for at most 500 (and for at least
    one). *)
Theorem per_page_invariant (k : nat) (p : params) :
  sent (run k start) = Some p ->
  exists urls,
    urls_of (run k start) = Some urls
    /\ per_page p = Nat.min (num_images self - length urls) 500
    /\ per_page p <= 500
    /\ 1 <= per_page p.
Proof.
  intros E. destruct (sent_Some _ _ E) as [urls [page [Hst [Hl Hp]]]].
  exists urls. rewrite Hst. subst p. simpl. unfold max_per_page.
  repeat split; lia.
Qed.

(** C10: a search request is only ever sent while the list holds fewer
    than [num_images] URLs, and once the list holds [num_images] URLs no
    later step of the run sends one. *)
Theorem no_request_once_full :
  (forall k p,
      sent (run k start) = Some p ->
      exists urls, urls_of (run k start) = Some urls /\ length urls < num_images self)
  /\ (forall k urls,
        urls_of (run k start) = Some urls ->
        num_images self <= length urls ->
        forall m, sent (run (k + m) start) = None).
Proof.
  split.
  - intros k p E. destruct (sent_Some _ _ E) as [urls [page [Hst [Hl _]]]].
    exists urls. rewrite Hst. split; [reflexivity|exact Hl].
  - intros k urls E Hl m. rewrite run_add.
    assert (Hinv : inv (run k start)) by apply inv_run, inv_start.
    destruct m as [|m].
    + simpl. destruct (sent (run k start)) as [p|] eqn:Hp; [|reflexivity].
      destruct (sent_Some _ _ Hp) as [us [page [Hst [Hlt _]]]].
      rewrite Hst in E. inversion E. subst us. lia.
    + simpl. rewrite (next_full _ _ Hinv E Hl).
      rewrite (run_finished m (Exited urls) eq_refl). reflexivity.
Qed.

(** C5: the list of collected URLs never holds a URL twice.  Two photo
    records with the same farm, server, id and secret get the same URL;
    a list a later state holds extends the list of every earlier state at
    its end, so a URL keeps the position it was first given; and once the
    [for] has looked at a photo that passes the validation, its URL is in
    the list exactly once, whatever the same or later pages bring. *)
Theorem result_set_has_no_duplicates :
  (forall rec rec',
      dict_get "farm" rec = dict_get "farm" rec' ->
      dict_get "server" rec = dict_get "server" rec' ->
      dict_get "id" rec = dict_get "id" rec' ->
      dict_get "secret" rec = dict_get "secret" rec' ->
      photo_url (JDict rec) = photo_url (JDict rec'))
  /\ (forall k urls,
        urls_of (run k start) = Some urls ->
        NoDup urls
        /\ (forall j urls0,
              j <= k -> urls_of (run j start) = Some urls0 ->
              exists more, urls = (urls0 ++ more)%list)
        /\ (forall j urls0 page photo rest url,
              j < k ->
              run j start = InFor urls0 page (photo :: rest) ->
              invalid photo = Ok false ->
              photo_url photo = Ok url ->
              count_occ string_dec urls url = 1)).
Proof.
  split; [exact photo_url_fields|].
  intros k urls E.
  assert (Hn : NoDup urls).
  { apply (inv_urls (run k start)); [apply inv_run, inv_start|exact E]. }
  split; [exact Hn|]. split.
  - intros j urls0 Hj E0. rewrite (run_split j k start Hj) in E.
    exact (run_extends _ _ _ _ E0 E).
  - intros j urls0 page photo rest url Hj Hst Hv Hu.
    assert (Hk : S j <= k) by lia.
    rewrite (run_split (S j) k start Hk), run_S in E.
    unfold next in E. rewrite Hst in E. simpl in E.
    destruct (for_step_keeps urls0 page photo rest url Hv Hu) as [urls' [E' Hin]].
    destruct (run_extends _ _ _ _ E' E) as [more ->].
    assert (Hc : In url (urls' ++ more)) by (apply in_or_app; left; exact Hin).
    apply (count_occ_In string_dec) in Hc.
    pose proof (proj1 (NoDup_count_occ string_dec _) Hn url). lia.
Qed.

(** C4: a photo record contributes its URL to the list iff it is valid,
    that is iff [farm], [server], [id] and [secret] are present, [farm]
    is not equal to 0 and the other three are neither empty nor zero.
    The round of the [for] that looks at a valid record leaves its URL in
    the list; the round that looks at any other record goes on to the
    next photo with the list unchanged and raises nothing, as for a
    record without [secret] or with [farm == 0]. *)
Theorem validation_rule (rec : list (string * jvalue))
        (urls : list string) (page : nat) (rest : list jvalue) :
  (valid_record rec ->
   exists url urls',
     photo_url (JDict rec) = Ok url
     /\ urls_of (next (InFor urls page (JDict rec :: rest))) = Some urls'
     /\ In url urls')
  /\ (~ valid_record rec ->
      next (InFor urls page (JDict rec :: rest)) = InFor urls page rest)
  /\ (dict_get "secret" rec = None \/ dict_get "farm" rec = Some (JInt 0) ->
      next (InFor urls page (JDict rec :: rest)) = InFor urls page rest).
Proof.
  assert (Hskip : ~ valid_record rec ->
                  next (InFor urls page (JDict rec :: rest)) = InFor urls page rest).
  { intros Hn. destruct (invalid_dict_cases rec) as [[Hv _]|[_ Hi]]; [contradiction|].
    unfold next. simpl. rewrite Hi. reflexivity. }
  split; [|split].
  - intros Hv. destruct (valid_record_url rec Hv) as [url Hu]. exists url.
    destruct (invalid_dict_cases rec) as [[_ Hi]|[Hn _]]; [|contradiction].
    destruct (for_step_keeps urls page (JDict rec) rest url Hi Hu) as [urls' [E Hin]].
    exists urls'. repeat split; assumption.
  - exact Hskip.
  - intros H. apply Hskip. intros [[farm [Hf Hz]] [_ [_ [secret [Hx _]]]]].
    destruct H as [H|H]; [congruence|].
    rewrite H in Hf. inversion Hf. subst farm. discriminate.
Qed.

(** C6: when the response to a search request is a 200 response whose
    photo list is empty ([[]], or any other value that [not] takes for
    empty) while the list holds fewer than [num_images] URLs, the loop is
    left at once and for good with the list as collected so far, and
    nothing is raised. *)
Theorem empty_page_ends_loop (k : nat) (urls : list string) (page : nat)
        (photo_list : jvalue) :
  run k start = AtWhile urls page ->
  length urls < num_images self ->
  photo_list_is (requests_get base_url (Some (search_params urls page))) photo_list ->
  truthy photo_list = false ->
  forall m, run (S k + m) start = Exited urls.
Proof.
  intros Hst Hl Hr Hf m. rewrite run_add, run_S, Hst.
  assert (E : next (AtWhile urls page) = Exited urls).
  { unfold next. simpl. destruct (Nat.ltb_spec (length urls) (num_images self)); [|lia].
    simpl. rewrite (photo_list_is_of _ _ Hr). unfold enter_for. rewrite Hf. reflexivity. }
  rewrite E. apply run_finished. reflexivity.
Qed.

(** ** The image fetcher: a failed download ends the run *)

Lemma open_images_app_raise (before after : list string) (url : string) (e : exn) :
  (forall u, In u before -> exists img, open_image_from_url u = Ok img) ->
  open_image_from_url url = Raise e ->
  open_images (before ++ url :: after) = Raise e.
Proof.
  intros Hb Hu. induction before as [|u before IH]; simpl.
  - rewrite Hu. reflexivity.
  - destruct (Hb u (or_introl eq_refl)) as [img ->]. simpl.
    rewrite IH; [reflexivity|]. intros v Hv. apply Hb. right. exact Hv.
Qed.

Lemma open_images_raise (urls : list string) (url : string) (e : exn) :
  In url urls -> open_image_from_url url = Raise e ->
  exists e', open_images urls = Raise e'.
Proof.
  intros Hin Hu. induction urls as [|u urls IH]; [destruct Hin|]. simpl.
  destruct (open_image_from_url u) as [img|e'] eqn:E; simpl; [|exists e'; reflexivity].
  destruct Hin as [->|Hin]; [congruence|].
  destruct (IH Hin) as [e' ->]. exists e'. reflexivity.
Qed.

Lemma open_image_status (url : string) :
  status_code (requests_get url None) <> 200%Z ->
  open_image_from_url url = Raise (ValueError ("Failed to fetch image from URL: " ++ url)).
Proof.
  intros H. unfold open_image_from_url.
  destruct (Z.eqb_spec (status_code (requests_get url None)) 200); [contradiction|reflexivity].
Qed.

(** C8: [__open_image_from_url] raises its [ValueError] exactly when the
    status of the download is not 200, and such a download ends the whole
    run with that exception: [execute] returns no table, also when the
    URLs before it in the list were downloaded and decoded. *)
Theorem download_error_aborts :
  (forall url,
      status_code (requests_get url None) <> 200%Z
      <-> open_image_from_url url
          = Raise (ValueError ("Failed to fetch image from URL: " ++ url)))
  /\ (forall url msg,
        open_image_from_url url = Raise (ValueError msg) ->
        status_code (requests_get url None) <> 200%Z)
  /\ (forall k before url after,
        run k start = Exited (before ++ url :: after) ->
        (forall u, In u before -> exists img, open_image_from_url u = Ok img) ->
        status_code (requests_get url None) <> 200%Z ->
        execute k = Some (Raise (ValueError ("Failed to fetch image from URL: " ++ url))))
  /\ (forall k urls url,
        run k start = Exited urls ->
        In url urls ->
        status_code (requests_get url None) <> 200%Z ->
        exists e, execute k = Some (Raise e)).
Proof.
  assert (Hval : forall url msg,
             open_image_from_url url = Raise (ValueError msg) ->
             status_code (requests_get url None) <> 200%Z).
  { intros url msg. unfold open_image_from_url.
    destruct (Z.eqb_spec (status_code (requests_get url None)) 200) as [E|E];
      [|intros _; exact E].
    destruct (Image_open (content (requests_get url None))) as [img|]; simpl;
      [|discriminate].
    destruct (Image_save img "PNG") as [buffer|]; simpl; [|discriminate].
    destruct (Image_open buffer); simpl; discriminate. }
  repeat split.
  - apply open_image_status.
  - apply Hval.
  - exact Hval.
  - intros k before url after Hst Hb Hs. unfold execute. rewrite Hst.
    rewrite (open_images_app_raise before after url _ Hb (open_image_status url Hs)).
    reflexivity.
  - intros k urls url Hst Hin Hs. unfold execute. rewrite Hst.
    destruct (open_images_raise urls url _ Hin (open_image_status url Hs)) as [e ->].
    exists e. reflexivity.
Qed.

(** ** The search paginator: when the loop ends *)

(** The [for] always comes to an end: it is left with an exception or
    back at the [while] test with the next page number. *)
Lemma for_ends (rest : list jvalue) (urls : list string) (page : nat) :
  exists m,
    (exists e, run m (InFor urls page rest) = Raised e)
    \/ (exists urls', run m (InFor urls page rest) = AtWhile urls' (page + 1)).
Proof.
  revert urls; induction rest as [|photo rest IH]; intros urls.
  - exists 1. right. exists urls. reflexivity.
  - destruct (for_step_cases urls page photo rest)
      as [[_ E]|[[e E]|[url [urls' [_ [_ [_ [[_ E]|[_ E]]]]]]]]].
    + destruct (IH urls) as [m H]. exists (S m). rewrite run_next, next_for, E. exact H.
    + exists 1. left. exists e. rewrite run_next, next_for, E. reflexivity.
    + exists 1. right. exists urls'. rewrite run_next, next_for, E. reflexivity.
    + destruct (IH urls') as [m H]. exists (S m). rewrite run_next, next_for, E. exact H.
Qed.

(** ** The search paginator: the exceptions of a search request *)

(** Everything lines 96-108 can do with a response. *)
Lemma photo_list_of_cases (r : response) :
  (status_code r <> 200%Z
   /\ photo_list_of r
      = Raise (RuntimeError ("Failed to fetch data from Flickr API: " ++ text r)))
  \/ (status_code r = 200%Z
      /\ ((exists v, photo_list_is r v /\ photo_list_of r = Ok v)
          \/ ((forall v, ~ photo_list_is r v)
              /\ (photo_list_of r = Raise JSONDecodeError
                  \/ photo_list_of r = Raise TypeError
                  \/ photo_list_of r = Raise unexpected_format)))).
Proof.
  unfold photo_list_of, photo_list_is, unexpected_format.
  destruct (Z.eqb_spec (status_code r) 200) as [Hs|Hs]; simpl;
    [right; split; [exact Hs|]|left; split; [exact Hs|reflexivity]].
  destruct (json r) as [data|].
  2:{ right. split; [|left; reflexivity].
      intros v [_ [d [ph [Hj _]]]]. discriminate. }
  unfold por, not_in, contains, getitem, bind.
  destruct data as [| | | | s|items|data]; simpl;
    try (right; split;
         [intros v [_ [d [ph [Hj _]]]]; discriminate
         |first [destruct (occurs "photos" s)|destruct (existsb (is_str "photos") items)|idtac];
          simpl; tauto]).
  destruct (dict_get "photos" data) as [photos|] eqn:Hp; simpl.
  2:{ right. split; [|tauto].
      intros v [_ [d [ph [Hj [Hd _]]]]]. inversion Hj. subst d. congruence. }
  destruct photos as [| | | | s|items|photos]; simpl;
    try (right; split;
         [intros v [_ [d [ph [Hj [Hd _]]]]]; inversion Hj; subst d; congruence
         |first [destruct (occurs "photo" s)|destruct (existsb (is_str "photo") items)|idtac];
          simpl; tauto]).
  destruct (dict_get "photo" photos) as [v|] eqn:Hv; simpl.
  - left. exists v. split; [|reflexivity].
    split; [exact Hs|]. exists data, photos. repeat split; assumption.
  - right. split; [|tauto].
    intros v [_ [d [ph [Hj [Hd Hph]]]]]. inversion Hj. subst d.
    rewrite Hp in Hd. inversion Hd. subst ph. congruence.
Qed.

Lemma next_while (urls : list string) (page : nat) :
  length urls < num_images self ->
  next (AtWhile urls page)
  = match photo_list_of (requests_get base_url (Some (search_params urls page))) with
    | Raise e => Raised e
    | Ok photo_list => enter_for urls page photo_list
    end.
Proof.
  intros Hl. unfold next. simpl.
  destruct (ltb_cases (length urls) (num_images self)) as [[_ E]|[H _]]; [|lia].
  rewrite E. reflexivity.
Qed.

Lemma enter_for_raises (urls : list string) (page : nat) (photo_list : jvalue) (e : exn) :
  enter_for urls page photo_list = Raised e -> e = TypeError.
Proof.
  unfold enter_for. destruct (negb (truthy photo_list)); [discriminate|].
  destruct photo_list; simpl; intros H; inversion H; reflexivity.
Qed.

(** X10: what does hold of the two exceptions of a search request: the
    [RuntimeError] is raised exactly when the status is not 200; the
    [ValueError] is raised only when the status is 200 and the body has no
    [photos.photo], and it is raised whenever the body is a JSON object
    without [photos], or with an object [photos] without [photo]. *)
Lemma search_errors (urls : list string) (page : nat) :
  length urls < num_images self ->
  let r := requests_get base_url (Some (search_params urls page)) in
  (status_code r <> 200%Z
   <-> exists msg, next (AtWhile urls page) = Raised (RuntimeError msg))
  /\ (forall msg,
        next (AtWhile urls page) = Raised (ValueError msg) ->
        status_code r = 200%Z /\ forall v, ~ photo_list_is r v)
  /\ (forall data,
        status_code r = 200%Z ->
        json r = Some (JDict data) ->
        dict_get "photos" data = None
        \/ (exists photos,
              dict_get "photos" data = Some (JDict photos)
              /\ dict_get "photo" photos = None) ->
        next (AtWhile urls page) = Raised unexpected_format).
Proof.
  intros Hl r. rewrite (next_while urls page Hl). fold r.
  destruct (photo_list_of_cases r)
    as [[Hs E]|[Hs [[v [Hv E]]|[Hno [E|[E|E]]]]]]; rewrite E.
  - split; [split; [intros _; eexists; reflexivity|intros _; exact Hs]|].
    split; [intros msg H; discriminate|]. intros data Hs'. contradiction.
  - split; [split; [contradiction|]|split].
    + intros [msg H]. apply enter_for_raises in H. discriminate.
    + intros msg H. apply enter_for_raises in H. discriminate.
    + intros data _ Hj Hd. destruct Hv as [_ [d [ph [Hj' [Hp Hph]]]]].
      rewrite Hj in Hj'. inversion Hj'. subst d.
      destruct Hd as [Hd|[photos [Hd Hd']]]; congruence.
  - split; [split; [contradiction|intros [msg H]; discriminate]|].
    split; [intros msg H; discriminate|].
    intros data _ Hj Hd. unfold photo_list_of in E. rewrite Hs, Hj in E. simpl in E.
    unfold por, not_in, contains, getitem, bind in E.
    destruct Hd as [Hd|[photos [Hd Hd']]]; rewrite Hd in E; simpl in E;
      try rewrite Hd' in E; discriminate.
  - split; [split; [contradiction|intros [msg H]; discriminate]|].
    split; [intros msg H; discriminate|].
    intros data _ Hj Hd. unfold photo_list_of in E. rewrite Hs, Hj in E. simpl in E.
    unfold por, not_in, contains, getitem, bind in E.
    destruct Hd as [Hd|[photos [Hd Hd']]]; rewrite Hd in E; simpl in E;
      try rewrite Hd' in E; discriminate.
  - split; [split; [contradiction|intros [msg H]; discriminate]|].
    split; [intros msg _; split; [exact Hs|exact Hno]|]. intros; reflexivity.
Qed.

(** ** The requests of a run *)

Lemma requests_finished (k : nat) (st : state) :
  finished st = true -> requests k st = [].
Proof.
  intros H. induction k as [|k IH]; simpl; [reflexivity|].
  rewrite (next_finished st H).
  destruct st; simpl in H; try discriminate; exact IH.
Qed.

(** A step that sends a request leads out of the loop or into the [for]
    of the same page; a step that sends none keeps the page number the next
    request will carry, or leads out of the loop. *)
Lemma next_page_next (st : state) :
  finished (next st) = true
  \/ next_page (next st) = (match sent st with Some _ => 1 | None => 0 end) + next_page st.
Proof.
  destruct st as [urls page|urls page rest|urls|e]; try (left; reflexivity).
  - unfold sent, next. simpl.
    destruct (length urls <? num_images self); simpl; [|left; reflexivity].
    destruct (photo_list_of _) as [photo_list|e]; [|left; reflexivity].
    unfold enter_for. destruct (negb (truthy photo_list)); [left; reflexivity|].
    destruct (iter photo_list); [right; simpl; lia|left; reflexivity].
  - rewrite next_for. destruct rest as [|photo rest]; [right; reflexivity|].
    destruct (for_step_cases urls page photo rest)
      as [[_ E]|[[e E]|[url [urls' [_ [_ [_ [[_ E]|[_ E]]]]]]]]]; rewrite E;
      (left; reflexivity) || (right; reflexivity).
Qed.

Lemma requests_pages (k : nat) (st : state) :
  map rq_page (requests k st) = seq (next_page st) (length (requests k st)).
Proof.
  revert st; induction k as [|k IH]; intros st; [reflexivity|]. simpl.
  destruct (next_page_next st) as [Hfin|Hpage].
  - rewrite (requests_finished k _ Hfin).
    destruct (sent st) as [p|] eqn:E; [|reflexivity].
    destruct (sent_Some _ _ E) as [urls [page [-> [_ ->]]]]. reflexivity.
  - destruct (sent st) as [p|] eqn:E.
    + destruct (sent_Some _ _ E) as [urls [page [-> [_ ->]]]].
      simpl. rewrite IH, Hpage. reflexivity.
    + rewrite IH, Hpage. reflexivity.
Qed.

Lemma requests_fields (k : nat) (st : state) :
  Forall (fun p => rq_method p = "flickr.photos.search"
                   /\ rq_api_key p = api_key self
                   /\ rq_text p = search_term self
                   /\ rq_format p = "json"
                   /\ rq_nojsoncallback p = 1)
         (requests k st).
Proof.
  revert st; induction k as [|k IH]; intros st; [constructor|]. simpl.
  destruct (sent st) as [p|] eqn:E; [|apply IH].
  constructor; [|apply IH].
  destruct (sent_Some _ _ E) as [urls [page [_ [_ ->]]]]. repeat split.
Qed.

(** X1: the search requests of a run carry the page numbers 1, 2, 3, ...
    in the order they are sent, none left out and none asked for twice, and
    each of them the same method, API key, search term and format. *)
Theorem requests_walk_the_pages (k : nat) :
  map rq_page (requests k start) = seq 1 (length (requests k start))
  /\ Forall (fun p => rq_method p = "flickr.photos.search"
                      /\ rq_api_key p = api_key self
                      /\ rq_text p = search_term self
                      /\ rq_format p = "json"
                      /\ rq_nojsoncallback p = 1)
            (requests k start).
Proof.
  split; [apply (requests_pages k start)|apply requests_fields].
Qed.

(** ** How the loop is left *)

Lemma for_step_not_exited (urls : list string) (page : nat) (rest : list jvalue)
      (urls' : list string) :
  for_step urls page rest <> Exited urls'.
Proof.
  destruct rest as [|photo rest]; [discriminate|].
  destruct (for_step_cases urls page photo rest)
    as [[_ E]|[[e E]|[url [us [_ [_ [_ [[_ E]|[_ E]]]]]]]]]; rewrite E; discriminate.
Qed.

(** X2: when the loop is left with fewer than [num_images] URLs, it is
    left at a [while] test whose request was answered with an empty photo
    list (or another value that [not] takes for empty), with the list as it
    was at that test. *)
Theorem short_result_means_empty_page (k : nat) (urls : list string) :
  run k start = Exited urls ->
  length urls < num_images self ->
  exists j page photo_list,
    j < k
    /\ run j start = AtWhile urls page
    /\ photo_list_of (requests_get base_url (Some (search_params urls page))) = Ok photo_list
    /\ truthy photo_list = false.
Proof.
  intros Hk Hl. induction k as [|k IH]; [discriminate Hk|].
  rewrite run_S in Hk.
  destruct (run k start) as [us page|us page rest|us|e] eqn:Hst.
  - destruct (ltb_cases (length us) (num_images self)) as [[Hlt _]|[Hge E]].
    + rewrite (next_while us page Hlt) in Hk.
      destruct (photo_list_of (requests_get base_url (Some (search_params us page))))
        as [photo_list|e] eqn:Hpl; [|discriminate Hk].
      unfold enter_for in Hk. destruct (truthy photo_list) eqn:Ht; cbn [negb] in Hk.
      * destruct (iter photo_list); discriminate Hk.
      * inversion Hk. subst us. exists k, page, photo_list.
        repeat split; try assumption. lia.
    + unfold next in Hk. simpl in Hk. rewrite E in Hk. simpl in Hk.
      inversion Hk. subst us. lia.
  - rewrite next_for in Hk. exfalso. exact (for_step_not_exited _ _ _ _ Hk).
  - simpl in Hk. destruct (IH Hk) as [j [page [photo_list [Hj H]]]].
    exists j, page, photo_list. split; [lia|exact H].
  - discriminate Hk.
Qed.

(** ** The exceptions of the loop *)

(** What the validation makes of an item: it passes (only a valid record
    does), or it is skipped, or the test itself raises a [TypeError]. *)
Lemma invalid_cases (photo : jvalue) :
  (exists rec, photo = JDict rec /\ valid_record rec /\ invalid photo = Ok false)
  \/ invalid photo = Ok true
  \/ invalid photo = Raise TypeError.
Proof.
  destruct photo as [| | | |s|items|rec]; try (right; right; reflexivity).
  - unfold invalid, por, not_in, contains, getitem, bind.
    destruct (occurs "farm" s); simpl; [right; right|right; left]; reflexivity.
  - unfold invalid, por, not_in, contains, getitem, bind.
    destruct (existsb (is_str "farm") items); simpl; [right; right|right; left]; reflexivity.
  - destruct (invalid_dict_cases rec) as [[Hv Hi]|[_ Hi]].
    + left. exists rec. split; [reflexivity|split; assumption].
    + right; left. exact Hi.
Qed.

Lemma for_step_raises (urls : list string) (page : nat) (rest : list jvalue) (e : exn) :
  for_step urls page rest = Raised e -> e = TypeError.
Proof.
  destruct rest as [|photo rest]; [discriminate|]. unfold for_step.
  destruct (invalid_cases photo) as [[rec [-> [Hv ->]]]|[->| ->]].
  - destruct (valid_record_url rec Hv) as [url ->].
    destruct (num_images self <=? _); discriminate.
  - discriminate.
  - intros H. inversion H. reflexivity.
Qed.

(** X4: an item of the photo list that is not a JSON object never
    contributes a URL: when it is a list or a string in which ["farm"] does
    not occur it is skipped, and in every other case the validation ends
    the run with a [TypeError]. *)
Theorem non_object_item (urls : list string) (page : nat) (photo : jvalue)
        (rest : list jvalue) :
  (forall rec, photo <> JDict rec) ->
  item_url photo = None
  /\ ((contains "farm" photo = Ok false
       /\ next (InFor urls page (photo :: rest)) = InFor urls page rest)
      \/ ((contains "farm" photo = Ok true \/ contains "farm" photo = Raise TypeError)
          /\ next (InFor urls page (photo :: rest)) = Raised TypeError)).
Proof.
  intros Hno. rewrite next_for. unfold item_url, for_step.
  destruct photo as [| | | |s|items|rec];
    try (split; [reflexivity|right; split; [right; reflexivity|reflexivity]]).
  - unfold invalid, por, not_in, contains, getitem, bind.
    destruct (occurs "farm" s); simpl; split; try reflexivity;
      [right|left]; split; (reflexivity || (left; reflexivity)).
  - unfold invalid, por, not_in, contains, getitem, bind.
    destruct (existsb (is_str "farm") items); simpl; split; try reflexivity;
      [right|left]; split; (reflexivity || (left; reflexivity)).
  - exfalso. exact (Hno rec eq_refl).
Qed.

(** ** What the list is made of *)

Lemma item_url_skipped (photo : jvalue) : invalid photo = Ok true -> item_url photo = None.
Proof.
  intros H. unfold item_url. rewrite H. reflexivity.
Qed.

Lemma item_url_valid (photo : jvalue) (url : string) :
  invalid photo = Ok false -> photo_url photo = Ok url -> item_url photo = Some url.
Proof.
  intros Hi Hu. unfold item_url. rewrite Hi, Hu. reflexivity.
Qed.

Lemma valid_urls_app (a b : list jvalue) :
  valid_urls (a ++ b) = (valid_urls a ++ valid_urls b)%list.
Proof.
  induction a as [|photo a IH]; simpl; [reflexivity|].
  destruct (item_url photo); simpl; rewrite IH; reflexivity.
Qed.

Lemma add_new_urls (urls : list string) (url : string) :
  (if negb (mem url urls) then (urls ++ [url])%list else urls) = add_new urls url.
Proof.
  unfold add_new. destruct (mem url urls); reflexivity.
Qed.

Lemma fold_add_new_extends (l acc : list string) :
  exists more, fold_left add_new l acc = (acc ++ more)%list.
Proof.
  revert acc; induction l as [|x l IH]; intros acc; simpl.
  - exists []. rewrite app_nil_r. reflexivity.
  - destruct (IH (add_new acc x)) as [more ->]. unfold add_new.
    destruct (mem x acc).
    + exists more. reflexivity.
    + exists (x :: more). rewrite <- app_assoc. reflexivity.
Qed.

Lemma distinct_snoc (l : list string) (x : string) :
  distinct (l ++ [x]) = add_new (distinct l) x.
Proof.
  unfold distinct. rewrite fold_left_app. reflexivity.
Qed.

(** [distinct l] holds the strings of [l], each once. *)
Lemma distinct_spec (l : list string) :
  NoDup (distinct l) /\ forall x, In x (distinct l) <-> In x l.
Proof.
  induction l as [|x l [Hn Hin]] using rev_ind.
  - split; [constructor|intros x; reflexivity].
  - rewrite distinct_snoc. unfold add_new. destruct (mem x (distinct l)) eqn:Hm.
    + split; [exact Hn|]. intros y. rewrite in_app_iff, Hin. simpl.
      apply mem_In in Hm. rewrite Hin in Hm. split; [tauto|].
      intros [H|[<-|[]]]; assumption.
    + split; [apply NoDup_snoc; [exact Hn|apply mem_false; exact Hm]|].
      intros y. rewrite !in_app_iff, Hin. reflexivity.
Qed.


Lemma entered_not_while (st : state) :
  (forall urls page, st <> AtWhile urls page) -> entered st = [].
Proof.
  intros H. destruct st as [urls page| | |]; try reflexivity.
  exfalso. exact (H urls page eq_refl).
Qed.

(** Between the pages the list is made of the received items the [for] has
    gone through; inside the [for], of those before the ones still to
    come. *)
Lemma received_invariant (k : nat) :
  match run k start with
  | AtWhile urls _ | Exited urls =>
      exists done rest,
        received k = (done ++ rest)%list
        /\ urls = distinct (valid_urls done)
        /\ (rest = [] \/ num_images self <= length urls)
  | InFor urls _ rest =>
      exists done,
        received k = (done ++ rest)%list /\ urls = distinct (valid_urls done)
  | Raised _ => True
  end.
Proof.
  induction k as [|k IH].
  - exists [], []. repeat split. left. reflexivity.
  - rewrite run_S. cbn [received].
    destruct (run k start) as [urls page|urls page rest|urls|e] eqn:Hst.
    + destruct IH as [done [rest0 [Hrec [Hurls Hrest]]]]. unfold entered.
      destruct (ltb_cases (length urls) (num_images self)) as [[Hlt _]|[Hge E]].
      * destruct Hrest as [->|Hfull]; [|lia]. rewrite app_nil_r in Hrec.
        rewrite (next_while urls page Hlt).
        destruct (photo_list_of _) as [photo_list|e]; [|exact I].
        unfold enter_for. destruct (negb (truthy photo_list)).
        -- exists done, []. rewrite !app_nil_r. repeat split; try assumption.
           left. reflexivity.
        -- destruct (iter photo_list) as [items|e]; [|exact I].
           exists done. rewrite Hrec. split; [reflexivity|exact Hurls].
      * assert (En : next (AtWhile urls page) = Exited urls).
        { unfold next. simpl. rewrite E. reflexivity. }
        rewrite En. exists done, rest0. rewrite app_nil_r. repeat split; assumption.
    + destruct IH as [done [Hrec Hurls]].
      rewrite (entered_not_while (InFor urls page rest)) by (intros; discriminate).
      rewrite app_nil_r, next_for.
      destruct rest as [|photo rest].
      * exists done, []. repeat split; try assumption. left. reflexivity.
      * assert (Hsplit : (done ++ photo :: rest = (done ++ [photo]) ++ rest)%list)
          by (rewrite <- app_assoc; reflexivity).
        destruct (for_step_cases urls page photo rest)
          as [[Hi E]|[[e E]|[url [urls' [Hi [Hu [Hurls' [[Hfull E]|[_ E]]]]]]]]];
          rewrite E; try exact I.
        -- exists (done ++ [photo])%list. split; [rewrite Hrec; exact Hsplit|].
           rewrite valid_urls_app. simpl. rewrite (item_url_skipped photo Hi), app_nil_r.
           exact Hurls.
        -- exists (done ++ [photo])%list, rest. split; [rewrite Hrec; exact Hsplit|].
           split; [|right; exact Hfull].
           rewrite valid_urls_app. simpl. rewrite (item_url_valid photo url Hi Hu).
           rewrite distinct_snoc, <- Hurls, <- add_new_urls. exact Hurls'.
        -- exists (done ++ [photo])%list. split; [rewrite Hrec; exact Hsplit|].
           rewrite valid_urls_app. simpl. rewrite (item_url_valid photo url Hi Hu).
           rewrite distinct_snoc, <- Hurls, <- add_new_urls. exact Hurls'.
    + destruct IH as [done [rest0 [Hrec [Hurls Hrest]]]].
      rewrite (entered_not_while (Exited urls)) by (intros; discriminate).
      rewrite app_nil_r. simpl. exists done, rest0. repeat split; assumption.
    + exact I.
Qed.

(** X6: when the loop is left without an exception, its list is the first
    [num_images] distinct URLs of the valid photos among all the items the
    responses brought, in the order they were brought. *)
Theorem result_is_first_distinct (k : nat) (urls : list string) :
  run k start = Exited urls ->
  urls = firstn (num_images self) (distinct (valid_urls (received k))).
Proof.
  intros Hst. pose proof (received_invariant k) as H. rewrite Hst in H.
  destruct H as [done [rest [Hrec [Hurls Hrest]]]].
  pose proof (inv_run k start inv_start) as Hinv. rewrite Hst in Hinv.
  destruct Hinv as [_ Hle].
  rewrite Hrec, valid_urls_app. unfold distinct. rewrite fold_left_app.
  fold (distinct (valid_urls done)). rewrite <- Hurls.
  destruct Hrest as [->|Hfull].
  - simpl. symmetry. apply firstn_all2. exact Hle.
  - destruct (fold_add_new_extends (valid_urls rest) urls) as [more ->].
    assert (Hn : num_images self = length urls) by lia.
    rewrite Hn, firstn_app, firstn_all, Nat.sub_diag. simpl.
    rewrite app_nil_r. reflexivity.
Qed.

(** ** The output table *)

Lemma open_images_rows (urls : list string) (imgs : list image) :
  open_images urls = Ok imgs
  <-> Forall2 (fun url img => open_image_from_url url = Ok img) urls imgs.
Proof.
  revert imgs; induction urls as [|url urls IH]; intros imgs; simpl.
  - split.
    + intros H. inversion H. constructor.
    + intros H. inversion H. reflexivity.
  - destruct (open_image_from_url url) as [img|e] eqn:E; simpl.
    + destruct (open_images urls) as [rest|e] eqn:Er; simpl.
      * split.
        -- intros H. inversion H. constructor; [exact E|]. apply IH. reflexivity.
        -- intros H. inversion H as [|u i us ims Hu Hus]; subst.
           apply IH in Hus. congruence.
      * split; [discriminate|].
        intros H. inversion H as [|u i us ims Hu Hus]; subst.
        apply IH in Hus. discriminate.
    + split; [discriminate|].
      intros H. inversion H as [|u i us ims Hu Hus]; subst. congruence.
Qed.

Lemma open_image_ok (url : string) (img : image) :
  open_image_from_url url = Ok img
  <-> status_code (requests_get url None) = 200%Z
      /\ exists decoded buffer,
           Image_open (content (requests_get url None)) = Some decoded
           /\ Image_save decoded "PNG" = Some buffer
           /\ Image_open buffer = Some img.
Proof.
  unfold open_image_from_url.
  destruct (Z.eqb_spec (status_code (requests_get url None)) 200) as [Hs|Hs].
  - destruct (Image_open (content (requests_get url None))) as [decoded|] eqn:Ed; simpl.
    + destruct (Image_save decoded "PNG") as [buffer|] eqn:Eb; simpl.
      * destruct (Image_open buffer) as [out|] eqn:Eo; simpl.
        -- split.
           ++ intros H. inversion H. subst out. split; [exact Hs|].
              exists decoded, buffer. repeat split; assumption.
           ++ intros [_ [d [b [Hd [Hb Ho]]]]]. congruence.
        -- split; [discriminate|]. intros [_ [d [b [Hd [Hb Ho]]]]]. congruence.
      * split; [discriminate|]. intros [_ [d [b [Hd [Hb Ho]]]]]. congruence.
    + split; [discriminate|]. intros [_ [d [b [Hd _]]]]. discriminate.
  - split; [discriminate|]. intros [H _]. contradiction.
Qed.

(** X7: [execute] returns a table exactly when the loop is left without an
    exception and every URL of its list downloads with status 200 and
    decodes; the table then has one row per URL, in the order of the list,
    each row the image re-opened from the PNG encoding of the download;
    so it has at most [num_images] rows. *)
Theorem execute_returns_rows (k : nat) (imgs : list image) :
  (execute k = Some (Ok imgs)
   <-> exists urls,
         run k start = Exited urls
         /\ Forall2 (fun url img =>
                       status_code (requests_get url None) = 200%Z
                       /\ exists decoded buffer,
                            Image_open (content (requests_get url None)) = Some decoded
                            /\ Image_save decoded "PNG" = Some buffer
                            /\ Image_open buffer = Some img)
                    urls imgs)
  /\ (execute k = Some (Ok imgs) -> length imgs <= num_images self).
Proof.
  assert (Hiff : execute k = Some (Ok imgs)
                 <-> exists urls,
                       run k start = Exited urls
                       /\ Forall2 (fun url img => open_image_from_url url = Ok img) urls imgs).
  { unfold execute. destruct (run k start) as [us page|us page rest|us|e].
    - split; [discriminate|]. intros [urls [H _]]. discriminate.
    - split; [discriminate|]. intros [urls [H _]]. discriminate.
    - split.
      + intros H. exists us. split; [reflexivity|]. apply open_images_rows. congruence.
      + intros [urls [H Hrows]]. inversion H. subst urls.
        apply open_images_rows in Hrows. congruence.
    - split; [discriminate|]. intros [urls [H _]]. discriminate. }
  assert (Hrow : forall urls,
             Forall2 (fun url img => open_image_from_url url = Ok img) urls imgs
             <-> Forall2 (fun url img =>
                            status_code (requests_get url None) = 200%Z
                            /\ exists decoded buffer,
                                 Image_open (content (requests_get url None)) = Some decoded
                                 /\ Image_save decoded "PNG" = Some buffer
                                 /\ Image_open buffer = Some img)
                         urls imgs).
  { intros urls. split; apply Forall2_impl; intros url img H;
      apply open_image_ok; exact H. }
  split.
  - rewrite Hiff. split; intros [urls [Hst H]]; exists urls; (split; [exact Hst|]);
      apply Hrow; exact H.
  - intros H. apply Hiff in H. destruct H as [urls [Hst H]].
    rewrite <- (Forall2_length H).
    pose proof (inv_run k start inv_start) as Hinv. rewrite Hst in Hinv. apply Hinv.
Qed.

(** ** The URL of a photo *)

Lemma append_inj_l (a x y : string) : a ++ x = a ++ y -> x = y.
Proof.
  induction a as [|c a IH]; simpl; intros H; [exact H|].
  inversion H. apply IH. assumption.
Qed.

Lemma append_length (x y : string) :
  String.length (x ++ y) = String.length x + String.length y.
Proof.
  induction x as [|c x IH]; simpl; [reflexivity|]. rewrite IH. reflexivity.
Qed.

Lemma append_inj_r (x y t : string) : x ++ t = y ++ t -> x = y.
Proof.
  intros H.
  assert (Hlen : String.length x = String.length y).
  { apply (f_equal String.length) in H. rewrite !append_length in H. lia. }
  revert y H Hlen; induction x as [|c x IH]; intros [|d y] H Hlen;
    simpl in Hlen; try discriminate; [reflexivity|].
  simpl in H. inversion H. f_equal. apply IH; [assumption|lia].
Qed.

(** Two strings cut at the first occurrence of a character. *)
Lemma split_at_char (c : ascii) (s1 s2 t1 t2 : string) :
  has_char c s1 = false -> has_char c s2 = false ->
  s1 ++ String c t1 = s2 ++ String c t2 ->
  s1 = s2 /\ t1 = t2.
Proof using Type.
  revert s2; induction s1 as [|a s1 IH]; intros [|b s2] H1 H2 H; simpl in *.
  - inversion H. split; reflexivity.
  - inversion H. subst b. rewrite Ascii.eqb_refl in H2. discriminate.
  - inversion H. subst a. rewrite Ascii.eqb_refl in H1. discriminate.
  - inversion H as [[Hab Hrest]]. subst b.
    apply orb_false_elim in H1. apply orb_false_elim in H2.
    destruct H1 as [_ H1]. destruct H2 as [_ H2].
    destruct (IH s2 H1 H2 Hrest) as [E1 E2]. subst s2 t2. split; reflexivity.
Qed.

Lemma uint_no_dot (d : Decimal.uint) :
  has_char "." (NilEmpty.string_of_uint d) = false.
Proof.
  induction d; simpl; try assumption; reflexivity.
Qed.

Lemma decimal_no_dot (n : Z) : has_char "." (decimal n) = false.
Proof.
  unfold decimal, NilZero.string_of_int, NilZero.string_of_uint.
  destruct (Z.to_int n) as [d|d]; destruct d; simpl; try reflexivity; apply uint_no_dot.
Qed.

Lemma decimal_inj (n n' : Z) : decimal n = decimal n' -> n = n'.
Proof.
  intros H. apply DecimalZ.to_int_inj.
  assert (Hnil : forall m, Z.to_int m <> Decimal.Pos Decimal.Nil
                           /\ Z.to_int m <> Decimal.Neg Decimal.Nil).
  { intros [|p|p]; simpl; split; try discriminate; intros E; inversion E;
      exact (DecimalPos.Unsigned.to_uint_nonnil p ltac:(assumption)). }
  apply (f_equal NilZero.int_of_string) in H. unfold decimal in H.
  rewrite !NilZero.isi in H by apply Hnil. inversion H. reflexivity.
Qed.

(** X8: on records as Flickr sends them (an integer [farm], a [server]
    without a slash, an [id] without an underscore) the URL tells the
    photos apart: two records with the same URL have the same farm, server,
    id and secret, so the test [photo_url not in urls] drops a photo only
    when it was seen before. *)
Theorem photo_url_injective (rec rec' : list (string * jvalue))
        (farm farm' : Z) (server server' id id' secret secret' : string) :
  flickr_fields rec farm server id secret ->
  flickr_fields rec' farm' server' id' secret' ->
  photo_url (JDict rec) = photo_url (JDict rec') ->
  farm = farm' /\ server = server' /\ id = id' /\ secret = secret'.
Proof.
  intros [Hf [Hs [Hi [Hx [Hslash Hunder]]]]] [Hf' [Hs' [Hi' [Hx' [Hslash' Hunder']]]]].
  unfold photo_url, getitem. rewrite Hf, Hs, Hi, Hx, Hf', Hs', Hi', Hx'. simpl.
  intros H. inversion H as [Hurl]. clear H.
  destruct (split_at_char "." (decimal farm) (decimal farm') _ _
              (decimal_no_dot farm) (decimal_no_dot farm') Hurl) as [Hfarm Hrest].
  apply (append_inj_l "staticflickr.com/") in Hrest.
  destruct (split_at_char "/" server server' _ _ Hslash Hslash' Hrest) as [-> Hrest'].
  destruct (split_at_char "_" id id' _ _ Hunder Hunder' Hrest') as [-> Hsecret].
  apply append_inj_r in Hsecret.
  repeat split; try assumption. apply decimal_inj. exact Hfarm.
Qed.

(** ** [configure] *)

(** X9: [configure] returns the column "Image" exactly when there is at
    least one credential and a credential is selected; without
    credentials it raises "No credentials provided." whatever is selected,
    and it does not look whether the selected name is one of the
    credentials there are. *)
Theorem configure_checks (credential_names : list string) (credential_param : string) :
  (configure credential_names credential_param = Column "Image"
   <-> credential_names <> [] /\ credential_param <> "")
  /\ (credential_names = [] ->
      configure credential_names credential_param
      = InvalidParametersError "No credentials provided.")
  /\ (credential_names <> [] -> credential_param = "" ->
      configure credential_names credential_param
      = InvalidParametersError "Credentials not selected.")
  /\ (credential_names <> [] -> credential_param <> "" ->
      ~ In credential_param credential_names ->
      configure credential_names credential_param = Column "Image").
Proof using Type.
  unfold configure.
  destruct credential_names as [|name names]; simpl.
  - split; [split; [discriminate|intros [H _]; exfalso; apply H; reflexivity]|].
    split; [reflexivity|].
    split; intros H; exfalso; apply H; reflexivity.
  - destruct (String.eqb_spec credential_param "") as [E|E]; simpl.
    + split; [split; [discriminate|intros [_ H]; exfalso; exact (H E)]|].
      split; [discriminate|].
      split; [reflexivity|]. intros _ H. exfalso. exact (H E).
    + split; [split; [intros _; split; [discriminate|exact E]|reflexivity]|].
      split; [discriminate|].
      split; [intros _ H; exfalso; exact (E H)|reflexivity].
Qed.

(** ** The search paginator: when the loop ends, and with how many URLs *)

(** C2, as the code has it: for every input and every sequence of
    responses, the loop ends in one of three ways, with an exception, or
    with [num_images] URLs in the list, or after a response whose photo list
    is empty, or else it goes on for ever, sending the request for every
    page number in turn: for each page number there is a step at which the
    run has ended in one of the three ways or is about to request that
    page. *)
Theorem loop_ends_or_requests_every_page (P : nat) :
  exists k,
    (exists e, run k start = Raised e)
    \/ (exists urls,
          run k start = Exited urls
          /\ (length urls = num_images self
              \/ exists j page photo_list,
                   j < k
                   /\ run j start = AtWhile urls page
                   /\ length urls < num_images self
                   /\ photo_list_of (requests_get base_url (Some (search_params urls page)))
                      = Ok photo_list
                   /\ truthy photo_list = false))
    \/ (exists urls,
          run k start = AtWhile urls (S P)
          /\ length urls < num_images self
          /\ sent (run k start) = Some (search_params urls (S P))).
Proof.
  assert (Hwhile : forall k urls page,
             run k start = AtWhile urls page ->
             num_images self <= length urls ->
             run (S k) start = Exited urls /\ length urls = num_images self).
  { intros k urls page Hst Hge. rewrite run_S, Hst. split.
    - unfold next. simpl.
      destruct (ltb_cases (length urls) (num_images self)) as [[Hlt _]|[_ E]]; [lia|].
      rewrite E. reflexivity.
    - pose proof (inv_run k start inv_start) as Hinv. rewrite Hst in Hinv.
      simpl in Hinv. lia. }
  assert (Hsent : forall urls page,
             length urls < num_images self ->
             sent (AtWhile urls page) = Some (search_params urls page)).
  { intros urls page Hlt. unfold sent. simpl.
    destruct (ltb_cases (length urls) (num_images self)) as [[_ E]|[Hge _]]; [|lia].
    rewrite E. reflexivity. }
  induction P as [|P IH].
  - destruct (ltb_cases (length (@nil string)) (num_images self)) as [[Hlt _]|[Hge _]].
    + exists 0. right; right. exists []. repeat split; [exact Hlt|apply Hsent; exact Hlt].
    + destruct (Hwhile 0 [] 1 eq_refl Hge) as [Hst Hn].
      exists 1. right; left. exists []. split; [exact Hst|left; exact Hn].
  - destruct IH as [k [H|[H|[urls [Hst [Hlt _]]]]]].
    + exists k. left. exact H.
    + exists k. right; left. exact H.
    + assert (E : run (S k) start
                  = match photo_list_of (requests_get base_url
                                           (Some (search_params urls (S P)))) with
                    | Raise e => Raised e
                    | Ok photo_list => enter_for urls (S P) photo_list
                    end).
      { rewrite run_S, Hst. apply next_while. exact Hlt. }
      destruct (photo_list_of (requests_get base_url (Some (search_params urls (S P)))))
        as [photo_list|e] eqn:Hpl; [|exists (S k); left; exists e; exact E].
      unfold enter_for in E. destruct (truthy photo_list) eqn:Ht; cbn [negb] in E.
      * destruct (iter photo_list) as [items|e]; [|exists (S k); left; exists e; exact E].
        destruct (for_ends items urls (S P)) as [m [[e Hm]|[urls' Hm]]].
        -- exists (S k + m). left. exists e. rewrite run_add, E. exact Hm.
        -- assert (Hst' : run (S k + m) start = AtWhile urls' (S (S P))).
           { rewrite run_add, E, Hm. f_equal. lia. }
           destruct (ltb_cases (length urls') (num_images self)) as [[Hlt' _]|[Hge' _]].
           ++ exists (S k + m). right; right. exists urls'.
              split; [exact Hst'|]. split; [exact Hlt'|].
              rewrite Hst'. apply Hsent. exact Hlt'.
           ++ destruct (Hwhile _ _ _ Hst' Hge') as [Hex Hn].
              exists (S (S k + m)). right; left. exists urls'.
              split; [exact Hex|left; exact Hn].
      * exists (S k). right; left. exists urls. split; [exact E|right].
        exists k, (S P), photo_list. repeat split; try assumption. lia.
Qed.

(** The items received up to a step are still there at every later step. *)
Lemma received_prefix (j k : nat) :
  j <= k -> exists more, received k = (received j ++ more)%list.
Proof.
  intros H. induction H as [|k H [more IH]].
  - exists []. rewrite app_nil_r. reflexivity.
  - exists (more ++ entered (run k start))%list. cbn [received].
    rewrite IH, app_assoc. reflexivity.
Qed.





(** ** The exceptions of the loop, once more *)

(** The exceptions the modelled statements of the loop raise.  (An
    exception raised inside [requests.get] is not modelled; what
    [response.json()] raises is the one constructor [JSONDecodeError].) *)
Lemma raised_cases (k : nat) (e : exn) :
  run k start = Raised e ->
  (exists msg, e = RuntimeError msg)
  \/ e = JSONDecodeError
  \/ e = unexpected_format
  \/ e = TypeError.
Proof.
  induction k as [|k IH]; [discriminate|]. rewrite run_S.
  destruct (run k start) as [urls page|urls page rest|urls|e'] eqn:Hst.
  - destruct (ltb_cases (length urls) (num_images self)) as [[Hlt _]|[Hge E]].
    + rewrite (next_while urls page Hlt).
      destruct (photo_list_of_cases (requests_get base_url (Some (search_params urls page))))
        as [[_ Hr]|[_ [[v [_ Hr]]|[_ [Hr|[Hr|Hr]]]]]]; rewrite Hr; intros H.
      * inversion H. left. eexists. reflexivity.
      * apply enter_for_raises in H. right; right; right. exact H.
      * inversion H. right; left. reflexivity.
      * inversion H. right; right; right. reflexivity.
      * inversion H. right; right; left. reflexivity.
    + unfold next. simpl. rewrite E. discriminate.
  - rewrite next_for. intros H. apply for_step_raises in H. right; right; right. exact H.
  - discriminate.
  - simpl. intros H. apply IH. exact H.
Qed.

(** X3: the loop never ends with a [KeyError]: each of the subscripts
    [data["photos"]], [data["photos"]["photo"]], [photo["farm"]],
    [photo["server"]], [photo["id"]] and [photo["secret"]] is evaluated only
    after the [in] test for its key has succeeded on the same value, and on
    a value that is not an object it raises a [TypeError]. *)
Theorem loop_never_raises_key_error (k : nat) (e : exn) :
  run k start = Raised e -> ~ exists key, e = KeyError key.
Proof.
  intros H [key ->].
  destruct (raised_cases k _ H) as [[msg E]|[E|[E|E]]]; discriminate E.
Qed.

End Execute.

(** ** The scenarios of the specification, run *)

Import Sample.

(** Page 1 brings A, A again, B without [server], and C: the list is
    [url(A); url(C)] and the loop goes on to page 2 for the third URL. *)
Example scenario_duplicate_and_invalid :
  run no_repr (source mixed) (wants 3) 6 start = AtWhile [urlA; urlC] 2
  /\ run no_repr (source mixed) (wants 3) 9 start = Exited [urlA; urlC; urlD].
Proof.
  split; vm_compute; reflexivity.
Qed.

(** Five URLs wanted, two photos on page 1, page 2 empty: two URLs and no
    exception. *)
Example scenario_exhausted :
  run no_repr (source drained) (wants 5) 5 start = Exited [urlA; urlC].
Proof.
  vm_compute. reflexivity.
Qed.

(** The search request is answered with a 500. *)
Example scenario_http_500 :
  run no_repr (fun _ _ => answer 500 None) (wants 3) 1 start
  = Raised (RuntimeError "Failed to fetch data from Flickr API: ").
Proof.
  vm_compute. reflexivity.
Qed.

(** The validation takes [farm] for missing only when it equals 0: a
    record whose [farm] is the empty string or [null] passes. *)
Example farm_is_compared_with_zero :
  invalid (JDict [("farm", JStr ""); ("server", JStr "1"); ("id", JStr "2");
                  ("secret", JStr "x")]) = Ok false
  /\ invalid (JDict [("farm", JNull); ("server", JStr "1"); ("id", JStr "2");
                     ("secret", JStr "x")]) = Ok false
  /\ invalid (JDict [("farm", JBool false); ("server", JStr "1"); ("id", JStr "2");
                     ("secret", JStr "x")]) = Ok true
  /\ invalid (JDict [("farm", JInt 1); ("server", JStr ""); ("id", JStr "2");
                     ("secret", JStr "x")]) = Ok true.
Proof.
  repeat split.
Qed.

(** ** The theorems at sample sources *)

Lemma length_invariant_witness :
  urls_of (run no_repr (source mixed) (wants 3) 8 start) = Some [urlA; urlC; urlD]
  /\ length [urlA; urlC; urlD] <= num_images (wants 3).
Proof.
  split; [vm_compute; reflexivity|].
  apply (length_invariant no_repr (source mixed) (wants 3) 8).
  vm_compute. reflexivity.
Defined.

Lemma per_page_invariant_witness :
  sent no_repr (source fresh) (wants 700) (run no_repr (source fresh) (wants 700) 0 start)
  = Some (search_params (wants 700) [] 1)
  /\ exists urls,
       urls_of (run no_repr (source fresh) (wants 700) 0 start) = Some urls
       /\ per_page (search_params (wants 700) [] 1) = Nat.min (700 - length urls) 500
       /\ per_page (search_params (wants 700) [] 1) <= 500
       /\ 1 <= per_page (search_params (wants 700) [] 1).
Proof.
  split; [reflexivity|].
  apply (per_page_invariant no_repr (source fresh) (wants 700) 0
                            (search_params (wants 700) [] 1)).
  reflexivity.
Defined.

Lemma no_request_once_full_witness :
  urls_of (run no_repr (source mixed) (wants 3) 8 start) = Some [urlA; urlC; urlD]
  /\ sent no_repr (source mixed) (wants 3) (run no_repr (source mixed) (wants 3) (8 + 0) start)
     = None.
Proof.
  split; [vm_compute; reflexivity|].
  apply (proj2 (no_request_once_full no_repr (source mixed) (wants 3)) 8 [urlA; urlC; urlD]).
  - vm_compute. reflexivity.
  - simpl. lia.
Defined.

Lemma result_set_has_no_duplicates_witness :
  NoDup [urlA; urlC] /\ count_occ string_dec [urlA; urlC] urlA = 1.
Proof.
  pose proof (proj2 (result_set_has_no_duplicates no_repr (source mixed) (wants 3))
                    6 [urlA; urlC]) as H.
  destruct H as [Hn [_ Hc]]; [vm_compute; reflexivity|].
  split; [exact Hn|].
  apply (Hc 2 [urlA] 1 (JDict A) [JDict B; JDict C] urlA).
  - lia.
  - vm_compute. reflexivity.
  - reflexivity.
  - reflexivity.
Defined.

Lemma valid_record_A : valid_record A.
Proof.
  unfold valid_record, present_nonempty. repeat split; eexists; split; reflexivity.
Qed.

Lemma validation_rule_witness :
  (exists url urls',
      photo_url no_repr (JDict A) = Ok url
      /\ urls_of (next no_repr (source mixed) (wants 3) (InFor [] 1 [JDict A; JDict B])) = Some urls'
      /\ In url urls')
  /\ next no_repr (source mixed) (wants 3) (InFor [urlA] 1 [JDict B; JDict C])
     = InFor [urlA] 1 [JDict C].
Proof.
  split.
  - apply (proj1 (validation_rule no_repr (source mixed) (wants 3) A [] 1 [JDict B])).
    exact valid_record_A.
  - apply (proj1 (proj2 (validation_rule no_repr (source mixed) (wants 3) B [urlA] 1 [JDict C]))).
    intros [_ [[v [E _]] _]]. discriminate E.
Defined.

Lemma empty_page_ends_loop_witness :
  run no_repr (source drained) (wants 5) 5 start = Exited [urlA; urlC].
Proof.
  refine (empty_page_ends_loop no_repr (source drained) (wants 5) 4 [urlA; urlC] 2
                               (JList []) _ _ _ _ 0).
  - vm_compute. reflexivity.
  - simpl. lia.
  - split; [reflexivity|]. eexists. eexists. repeat split.
  - reflexivity.
Defined.

Lemma download_error_aborts_witness :
  execute no_repr half_down (wants 3) (list byte) Image_open Image_save 9
  = Some (Raise (ValueError ("Failed to fetch image from URL: " ++ urlC))).
Proof.
  refine (proj1 (proj2 (proj2 (download_error_aborts no_repr half_down (wants 3)
                                 (list byte) Image_open Image_save)))
                9 [urlA] urlC [urlD] _ _ _).
  - vm_compute. reflexivity.
  - intros u [<-|[]]. eexists. vm_compute. reflexivity.
  - vm_compute. discriminate.
Defined.

(** A source whose every page holds one photo with [farm == 0]: no step of
    the run is the last. *)
Lemma only_invalid_cycle (repr : jvalue -> string) (k : nat) :
  forall page,
    finished (run repr (source only_invalid) (wants 1) k (AtWhile [] page)) = false
    /\ finished (run repr (source only_invalid) (wants 1) k (InFor [] page [JDict Z0])) = false
    /\ finished (run repr (source only_invalid) (wants 1) k (InFor [] page [])) = false.
Proof.
  induction k as [|k IH]; intros page; [repeat split|].
  rewrite !run_next.
  change (next repr (source only_invalid) (wants 1) (AtWhile [] page))
    with (InFor [] page [JDict Z0]).
  change (next repr (source only_invalid) (wants 1) (InFor [] page [JDict Z0]))
    with (InFor [] page []).
  change (next repr (source only_invalid) (wants 1) (InFor [] page []))
    with (AtWhile [] (page + 1)).
  repeat split; apply IH.
Qed.

(** With one URL wanted from that source, the loop has no last step,
    whatever [repr] is. *)
Lemma loop_can_run_forever :
  ~ exists repr k, finished (run repr (source only_invalid) (wants 1) k start) = true.
Proof.
  intros [repr [k H]]. unfold start in H.
  rewrite (proj1 (only_invalid_cycle repr k 1)) in H. discriminate H.
Qed.

(** C7: a 200 response with the body [{"photos": null}] has no
    [photos.photo], and the run does not end with the [ValueError] of line
    106: the test [["photo" not in data["photos"]]] itself raises a
    [TypeError]. *)
Theorem photos_null_raises_type_error :
  status_code (photos_null base_url (Some (search_params (wants 1) [] 1))) = 200%Z
  /\ (forall v, ~ photo_list_is (photos_null base_url (Some (search_params (wants 1) [] 1))) v)
  /\ (forall repr, run repr photos_null (wants 1) 1 start = Raised TypeError).
Proof.
  split; [reflexivity|]. split.
  - intros v [_ [data [photos [Hj [Hp _]]]]].
    inversion Hj. subst data. discriminate Hp.
  - intros repr. reflexivity.
Qed.

(** ** The further properties at sample sources *)

Lemma requests_walk_the_pages_witness :
  map rq_page (requests no_repr (source mixed) (wants 3) 9 start) = [1; 2].
Proof.
  refine (eq_trans (proj1 (requests_walk_the_pages no_repr (source mixed) (wants 3) 9)) _).
  vm_compute. reflexivity.
Defined.

Lemma short_result_means_empty_page_witness :
  exists j page photo_list,
    j < 5
    /\ run no_repr (source drained) (wants 5) j start = AtWhile [urlA; urlC] page
    /\ photo_list_of (source drained base_url
                        (Some (search_params (wants 5) [urlA; urlC] page)))
       = Ok photo_list
    /\ truthy photo_list = false.
Proof.
  apply (short_result_means_empty_page no_repr (source drained) (wants 5) 5 [urlA; urlC]).
  - vm_compute. reflexivity.
  - simpl. lia.
Defined.

Lemma non_object_item_witness :
  item_url no_repr (JStr "x") = None
  /\ ((contains "farm" (JStr "x") = Ok false
       /\ next no_repr (source mixed) (wants 3) (InFor [urlA] 1 [JStr "x"; JDict C])
          = InFor [urlA] 1 [JDict C])
      \/ ((contains "farm" (JStr "x") = Ok true
           \/ contains "farm" (JStr "x") = Raise TypeError)
          /\ next no_repr (source mixed) (wants 3) (InFor [urlA] 1 [JStr "x"; JDict C])
             = Raised TypeError)).
Proof.
  apply (non_object_item no_repr (source mixed) (wants 3) [urlA] 1 (JStr "x") [JDict C]).
  intros rec H. discriminate H.
Defined.


Lemma result_is_first_distinct_witness :
  [urlA; urlC; urlD]
  = firstn 3 (distinct (valid_urls no_repr (received no_repr (source mixed) (wants 3) 9))).
Proof.
  apply (result_is_first_distinct no_repr (source mixed) (wants 3) 9 [urlA; urlC; urlD]).
  vm_compute. reflexivity.
Defined.

Lemma execute_returns_rows_witness :
  execute no_repr all_up (wants 3) (list byte) Image_open Image_save 9
  = Some (Ok [list_byte_of_string urlA; list_byte_of_string urlC; list_byte_of_string urlD]).
Proof.
  apply (proj1 (execute_returns_rows no_repr all_up (wants 3) (list byte)
                  Image_open Image_save 9 _)).
  exists [urlA; urlC; urlD]. split; [vm_compute; reflexivity|].
  repeat constructor; eexists; eexists; repeat split.
Defined.

Lemma photo_url_injective_witness :
  photo_url no_repr (JDict A) = photo_url no_repr (JDict A2)
  /\ (66%Z = 66%Z /\ "65535" = "65535" /\ "1" = "1" /\ "a" = "a").
Proof.
  split; [reflexivity|].
  apply (photo_url_injective no_repr A A2 66 66 "65535" "65535" "1" "1" "a" "a");
    repeat split.
Defined.

Lemma search_errors_witness :
  exists msg, next no_repr server_error (wants 3) (AtWhile [] 1) = Raised (RuntimeError msg).
Proof.
  apply (proj1 (search_errors no_repr server_error (wants 3) [] 1 ltac:(simpl; lia))).
  vm_compute. discriminate.
Defined.

(** Without the shape of Flickr's fields the URL does not tell photos
    apart: a slash in [server] or an underscore in [id] moves the
    boundaries, and an integer and a string print alike. *)
Example photo_url_collisions :
  photo_url no_repr (JDict (photo 1 "a/b" "c" "s"))
  = photo_url no_repr (JDict (photo 1 "a" "b/c" "s"))
  /\ photo_url no_repr (JDict (photo 1 "7" "c_d" "s"))
     = photo_url no_repr (JDict (photo 1 "7" "c" "d_s"))
  /\ photo_url no_repr (JDict [("farm", JStr "1"); ("server", JStr "7");
                               ("id", JStr "c"); ("secret", JStr "s")])
     = photo_url no_repr (JDict (photo 1 "7" "c" "s")).
Proof.
  repeat split.
Qed.

(** ** The end of the loop at sample sources *)

(** Three URLs wanted from the source that honours [per_page]: page 1 of
    size 3 brings A, B, C and leaves two URLs; pages 2 and 3 of size 1 bring
    B, which is invalid, and C, which is in the list; page 4 brings D. *)
Example honest_run :
  map per_page (requests no_repr honest (wants 3) 14 start) = [3; 1; 1; 1]
  /\ run no_repr honest (wants 3) 14 start = Exited [urlA; urlC; urlD].
Proof.
  split; vm_compute; reflexivity.
Qed.


(** One barren page and then an empty one: the loop ends, with no URL. *)
Example stall_once_ends :
  run no_repr (source stall_once) (wants 1) 4 start = Exited [].
Proof.
  vm_compute. reflexivity.
Qed.

Lemma loop_never_raises_key_error_witness :
  ~ exists key, TypeError = KeyError key.
Proof.
  apply (loop_never_raises_key_error no_repr photos_null (wants 1) 1 TypeError).
  reflexivity.
Defined.
